(** * PackedMessage: length-prefixed framing of serializable messages

    A shallow embedding of [psmovedataframe/PackedMessage.h] and the
    properties of its framing layer: header encoding and decoding, the two
    [pack] overloads (growable [data_buffer] and caller-supplied array) and
    the two [unpack] overloads.

    Conventions.
    - C++ integers are [Z] with the conversions written out: [to_unsigned]
      (32-bit [unsigned]), [to_size_t] (64-bit [size_t]) and [to_int]
      (32-bit two's complement [int], as the conversion is compiled).
    - [boost::uint8_t] is [Byte.byte]; a [data_buffer] and the memory behind
      a [uint8_t*] are [list byte].
    - An operation that dereferences a null handle, trips an [assert] or
      touches memory outside the array it was given ends in [Fault]. *)

From Stdlib Require Import ZArith Lia Bool.
From Stdlib Require Import Strings.Byte.
From Stdlib Require Strings.Ascii Strings.String.
From stdpp Require Import base list.

Open Scope Z_scope.

(** ** Machine integers and bytes *)

Module Int.

Definition UINT_MODULUS : Z := 2 ^ 32.
Definition SIZE_MODULUS : Z := 2 ^ 64.
Definition INT_MAX : Z := 2 ^ 31 - 1.
Definition INT_MIN : Z := - 2 ^ 31.

(** Conversion to [unsigned]: reduction modulo 2^32. *)
Definition to_unsigned (z : Z) : Z := z mod UINT_MODULUS.

(** Conversion to [size_t]: reduction modulo 2^64. *)
Definition to_size_t (z : Z) : Z := z mod SIZE_MODULUS.

(** Conversion to [int]: the two's complement value of the low 32 bits. *)
Definition to_int (z : Z) : Z := (z + 2 ^ 31) mod UINT_MODULUS - 2 ^ 31.

(** [static_cast<boost::uint8_t>]: the low 8 bits. *)
Definition to_uint8 (z : Z) : byte :=
  match Byte.of_N (Z.to_N (z mod 256)) with
  | Some b => b
  | None => x00
  end.

(** [static_cast<unsigned>] of a byte. *)
Definition of_uint8 (b : byte) : Z := Z.of_N (Byte.to_N b).

Definition is_int (z : Z) : Prop := INT_MIN <= z <= INT_MAX.

End Int.

Import Int.

(** ** Outcomes: a result, or undefined behaviour *)

Inductive outcome (A : Type) : Type :=
| Ret (a : A)
| Fault.

Arguments Ret {A} a.
Arguments Fault {A}.

#[global] Instance outcome_bind : MBind outcome :=
  fun A B (k : A -> outcome B) (c : outcome A) =>
    match c with
    | Ret a => k a
    | Fault => Fault
    end.

#[global] Instance outcome_ret : MRet outcome := fun A a => Ret a.

(** [assert(cond)]. *)
Definition assert (cond : bool) : outcome unit :=
  if cond then Ret tt else Fault.

(** [a + b] on [int]: signed overflow is undefined. *)
Definition int_add (a b : Z) : outcome Z :=
  if (INT_MIN <=? a + b) && (a + b <=? INT_MAX) then Ret (a + b) else Fault.

(** ** Byte arrays *)

Definition data_buffer : Type := list byte.

(** [buf.size()]. *)
Definition size (buf : list byte) : Z := Z.of_nat (length buf).

(** [buf[i]] as an rvalue. *)
Definition load (buf : list byte) (i : nat) : outcome byte :=
  match buf !! i with
  | Some b => Ret b
  | None => Fault
  end.

(** [buf[i] = b]. *)
Definition store (buf : list byte) (i : nat) (b : byte) : outcome (list byte) :=
  if decide (i < length buf)%nat then Ret (<[i := b]> buf) else Fault.

(** [memset(buf, c, n)]. *)
Definition memset (buf : list byte) (c : byte) (n : Z) : outcome (list byte) :=
  if n <=? size buf
  then Ret (replicate (Z.to_nat n) c ++ drop (Z.to_nat n) buf)
  else Fault.

(** The bytes [bs] stored at [buf[off]], [buf[off+1]], ... *)
Fixpoint store_bytes (buf : list byte) (off : nat) (bs : list byte)
  : outcome (list byte) :=
  match bs with
  | [] => Ret buf
  | b :: bs' => buf' ← store buf off b; store_bytes buf' (S off) bs'
  end.

(** ** The message interface

    [MessageType] is the template parameter of [PackedMessage]: a class
    generated by the protobuf compiler.  The framing layer uses four of its
    members.
    - [ByteSize m]: the [int] returned by [m.ByteSize()].
    - [SerializeToArray m size]: the call [m.SerializeToArray(data, size)];
      the result is its return value and the bytes it stores at [data[0]],
      [data[1]], ...
    - [ParseFromArray m data size]: the call [m.ParseFromArray(p, size)]
      where [data] is the array from [p] to its end; the result is the return
      value and the state the message is left in.
    - [Clear m]: the state of the message after [m.Clear()]. *)

Class MessageType (M : Type) : Type := {
  ByteSize : M -> Z;
  SerializeToArray : M -> Z -> bool * list byte;
  ParseFromArray : M -> list byte -> Z -> bool * M;
  Clear : M -> M
}.

(** The header size for packed messages. *)
Definition HEADER_SIZE : Z := 4.

Section PackedMessage.

Context {M : Type} `{MessageType M}.

(** [MessagePointer] is a [shared_ptr]: empty ([None]) or pointing to a
    message, given here by the state of the pointee. *)
Definition MessagePointer : Type := option M.

Record PackedMessage : Type := { m_msg : MessagePointer }.

Definition set_msg (self : PackedMessage) (msg : MessagePointer) : PackedMessage :=
  {| m_msg := msg |}.

Definition get_msg (self : PackedMessage) : MessagePointer := m_msg self.

(** [encode_header(data_buffer&, unsigned)]. *)
Definition encode_header (buf : data_buffer) (value : Z) : outcome data_buffer :=
  assert (HEADER_SIZE <=? size buf);;
  buf ← store buf 0 (to_uint8 (Z.land (Z.shiftr value 24) 255));
  buf ← store buf 1 (to_uint8 (Z.land (Z.shiftr value 16) 255));
  buf ← store buf 2 (to_uint8 (Z.land (Z.shiftr value 8) 255));
  buf ← store buf 3 (to_uint8 (Z.land value 255));
  Ret buf.

(** [encode_header(boost::uint8_t*, unsigned, unsigned)]. *)
Definition encode_header_raw (buf : list byte) (buf_size : Z) (value : Z)
  : outcome (list byte) :=
  assert (HEADER_SIZE <=? buf_size);;
  buf ← store buf 0 (to_uint8 (Z.land (Z.shiftr value 24) 255));
  buf ← store buf 1 (to_uint8 (Z.land (Z.shiftr value 16) 255));
  buf ← store buf 2 (to_uint8 (Z.land (Z.shiftr value 8) 255));
  buf ← store buf 3 (to_uint8 (Z.land value 255));
  Ret buf.

(** The loop of both [decode_header] overloads, entered with [i] and
    [msg_size] and run for [count] more iterations. *)
Fixpoint decode_loop (buf : list byte) (i : nat) (count : nat) (msg_size : Z)
  : outcome Z :=
  match count with
  | O => Ret msg_size
  | S count' =>
      b ← load buf i;
      decode_loop buf (S i) count'
        (to_unsigned (msg_size * 256 + Z.land (of_uint8 b) 255))
  end.

(** [decode_header(const data_buffer&)]. *)
Definition decode_header (buf : data_buffer) : outcome Z :=
  if size buf <? HEADER_SIZE then Ret 0
  else decode_loop buf 0 (Z.to_nat HEADER_SIZE) 0.

(** [decode_header(const boost::uint8_t*, unsigned)]. *)
Definition decode_header_raw (buf : list byte) (buf_size : Z) : outcome Z :=
  if buf_size <? HEADER_SIZE then Ret 0
  else decode_loop buf 0 (Z.to_nat HEADER_SIZE) 0.

(** The call [m_msg->SerializeToArray(&buf[off], msg_size)]: the message
    may store into [buf[off .. off+msg_size)] only. *)
Definition serialize_at (m : M) (buf : list byte) (off : nat) (msg_size : Z)
  : outcome (bool * list byte) :=
  let '(ok, written) := SerializeToArray m msg_size in
  assert (size written <=? Z.max 0 msg_size);;
  buf ← store_bytes buf off written;
  Ret (ok, buf).

(** [pack(data_buffer&)]. *)
Definition pack (self : PackedMessage) (buf : data_buffer)
  : outcome (bool * data_buffer) :=
  match m_msg self with
  | None => Ret (false, buf)
  | Some m =>
      let msg_size := to_unsigned (ByteSize m) in
      let buf := resize (Z.to_nat (to_unsigned (HEADER_SIZE + msg_size))) x00 buf in
      buf ← encode_header buf msg_size;
      if 0 <? msg_size
      then serialize_at m buf (Z.to_nat HEADER_SIZE) (to_int msg_size)
      else Ret (true, buf)
  end.

(** [pack(boost::uint8_t*, int)]. *)
Definition pack_raw (self : PackedMessage) (buf : list byte) (buf_size : Z)
  : outcome (bool * list byte) :=
  match m_msg self with
  | None => Ret (false, buf)
  | Some m =>
      let msg_size := ByteSize m in
      frame_size ← int_add HEADER_SIZE msg_size;
      if frame_size <? buf_size
      then
        buf ← memset buf x00 (to_size_t buf_size);
        buf ← encode_header_raw buf (to_unsigned buf_size) (to_unsigned msg_size);
        if 0 <? msg_size
        then serialize_at m buf (Z.to_nat HEADER_SIZE) msg_size
        else Ret (true, buf)
      else Ret (false, buf)
  end.

(** [unpack(const data_buffer&)].  The result is the return value and the
    state of the message behind [m_msg].  The difference
    [buf.size() - HEADER_SIZE] is a [size_t]; [&buf[HEADER_SIZE]] only forms
    an address, and the bytes from there to the end of the array are
    [drop 4 buf]. *)
Definition unpack (self : PackedMessage) (buf : data_buffer) : outcome (bool * M) :=
  match m_msg self with
  | None => Fault
  | Some m =>
      let m := Clear m in
      let body_size := to_size_t (size buf - HEADER_SIZE) in
      if 0 <? body_size
      then Ret (ParseFromArray m (drop (Z.to_nat HEADER_SIZE) buf) (to_int body_size))
      else Ret (true, m)
  end.

(** [unpack(const boost::uint8_t*, unsigned)]. *)
Definition unpack_raw (self : PackedMessage) (buf : list byte) (buf_size : Z)
  : outcome (bool * M) :=
  match m_msg self with
  | None => Fault
  | Some m =>
      let m := Clear m in
      let body_size := to_unsigned (buf_size - HEADER_SIZE) in
      if 0 <? body_size
      then Ret (ParseFromArray m (drop (Z.to_nat HEADER_SIZE) buf) (to_int body_size))
      else Ret (true, m)
  end.

(** *** Vocabulary of the properties *)

(** The codec holding the message [m]. *)
Definition holding (m : M) : PackedMessage := {| m_msg := Some m |}.

(** The codec holding no message. *)
Definition empty_handle : PackedMessage := {| m_msg := None |}.

(** [ByteSize] returned a byte count: a non-negative [int]. *)
Definition well_sized (m : M) : Prop := 0 <= ByteSize m <= INT_MAX.



End PackedMessage.

Arguments PackedMessage M : clear implicits.
Arguments MessagePointer M : clear implicits.

(** The header of a frame whose body has [value] bytes. *)
Definition header_bytes (value : Z) : list byte :=
  [ to_uint8 (Z.land (Z.shiftr value 24) 255);
    to_uint8 (Z.land (Z.shiftr value 16) 255);
    to_uint8 (Z.land (Z.shiftr value 8) 255);
    to_uint8 (Z.land value 255) ].

(** The number a byte string denotes in big-endian order, as the
    specification words it: [value = value * 256 + byte], repeated. *)
Definition big_endian_value (bs : list byte) : Z :=
  foldl (fun value b => value * 256 + of_uint8 b) 0 bs.

(** The loop of [decode_header] run in unbounded integers: the same
    multiply-and-add, with no reduction to 32 bits. *)
Fixpoint decode_loop_unbounded (buf : list byte) (i : nat) (count : nat)
    (msg_size : Z) : outcome Z :=
  match count with
  | O => Ret msg_size
  | S count' =>
      b ← load buf i;
      decode_loop_unbounded buf (S i) count'
        (msg_size * 256 + Z.land (of_uint8 b) 255)
  end.


(** ** A sample message type

    [Samples] is a message with one repeated field of 7-bit values, each one
    byte on the wire.  Like a generated protobuf class, its serializer refuses
    an array that is too small and stores nothing then, and its parser clears
    the message, decodes field by field and stops at the first malformed
    byte, keeping the fields decoded so far. *)

Module Samples.

Definition t : Type := list byte.

Fixpoint merge (m : t) (data : list byte) : bool * t :=
  match data with
  | [] => (true, m)
  | b :: data' =>
      if of_uint8 b <? 128 then merge (m ++ [b]) data' else (false, m)
  end.

Definition byte_size (m : t) : Z := size m.

Definition serialize_to_array (m : t) (n : Z) : bool * list byte :=
  if n <? byte_size m then (false, []) else (true, m).

Definition parse_from_array (m : t) (data : list byte) (n : Z) : bool * t :=
  if (n <? 0) || (size data <? n) then (false, [])
  else merge [] (take (Z.to_nat n) data).

Definition clear (m : t) : t := [].

(** A message of three fields, and one left over from an earlier use. *)
Definition m3 : t := [x01; x02; x03].
Definition stale : t := [x09].

#[global] Instance message : MessageType t := {|
  ByteSize := byte_size;
  SerializeToArray := serialize_to_array;
  ParseFromArray := parse_from_array;
  Clear := clear
|}.

End Samples.

(** ** A second sample message type

    [Filler] is a message holding one run of equal bytes, kept as the byte
    and the length of the run, so that a message of any encoded length is at
    hand without its bytes being built. *)

Module Filler.

Definition t : Type := (byte * Z)%type.

Definition byte_size (m : t) : Z := m.2.

Definition clear (m : t) : t := (x00, 0).

Definition serialize_to_array (m : t) (n : Z) : bool * list byte :=
  if n <? byte_size m then (false, [])
  else (true, replicate (Z.to_nat m.2) m.1).

Definition parse_from_array (m : t) (data : list byte) (n : Z) : bool * t :=
  if (n <? 0) || (size data <? n) then (false, clear m)
  else
    match take (Z.to_nat n) data with
    | [] => (true, clear m)
    | b :: run =>
        if forallb (Byte.eqb b) run then (true, (b, n)) else (false, clear m)
    end.

(** A run as long as an [int] can count. *)
Definition huge : t := (x00, INT_MAX).

#[global] Instance message : MessageType t := {|
  ByteSize := byte_size;
  SerializeToArray := serialize_to_array;
  ParseFromArray := parse_from_array;
  Clear := clear
|}.

End Filler.

(** ** The hex dump

    [show_hex] renders a byte container as text, one [sprintf("%02X ")] per
    byte appended to a [std::string]. *)

Module Hex.

Import Stdlib.Strings.Ascii.

Abbreviation string := String.string.

(** The digit [printf] writes for a value below 16 under [%X]. *)
Definition hex_digit (d : Z) : ascii :=
  match d with
  | 0 => "0" | 1 => "1" | 2 => "2" | 3 => "3"
  | 4 => "4" | 5 => "5" | 6 => "6" | 7 => "7"
  | 8 => "8" | 9 => "9" | 10 => "A" | 11 => "B"
  | 12 => "C" | 13 => "D" | 14 => "E" | _ => "F"
  end%char.

(** The digits of [v] in base 16, most significant first, put before
    [acc]; none for 0.  An [unsigned] has at most eight. *)
Fixpoint hex_digits (fuel : nat) (v : Z) (acc : string) : string :=
  match fuel with
  | O => acc
  | S fuel' =>
      if v =? 0 then acc
      else hex_digits fuel' (v / 16) (String.String (hex_digit (v mod 16)) acc)
  end.

(** Padding with ['0'] on the left up to [width] characters. *)
Fixpoint zero_pad (missing : nat) (s : string) : string :=
  match missing with
  | O => s
  | S missing' => String.String "0"%char (zero_pad missing' s)
  end.

(** [sprintf(buf, "%02X ", v)] for an [unsigned] [v]: the text left in
    [buf]. *)
Definition sprintf_02X (v : Z) : string :=
  let digits := hex_digits 8 v String.EmptyString in
  String.append
    (zero_pad (2 - String.length digits) digits)
    (String.String " "%char String.EmptyString).

(** The text one element contributes:
    [static_cast<unsigned>(b) & 0xFF] under ["%02X "]. *)
Definition chunk (b : byte) : string := sprintf_02X (Z.land (of_uint8 b) 255).

(** The loop of [show_hex(const CharContainer&)], entered with the elements
    [c] still to visit and the text [hex] so far. *)
Fixpoint show_hex_loop (c : list byte) (hex : string) : string :=
  match c with
  | [] => hex
  | b :: c' => show_hex_loop c' (String.append hex (chunk b))
  end.

(** [show_hex(const CharContainer&)], at a container of bytes. *)
Definition show_hex (c : list byte) : string :=
  show_hex_loop c String.EmptyString.

(** The loop of [show_hex(const uint8_t*, unsigned)], entered with [i] and
    [hex] and run for [count] more iterations. *)
Fixpoint show_hex_raw_loop (c : list byte) (i : nat) (count : nat) (hex : string)
  : outcome string :=
  match count with
  | O => Ret hex
  | S count' =>
      b ← load c i;
      show_hex_raw_loop c (S i) count' (String.append hex (chunk b))
  end.

(** [show_hex(const uint8_t*, unsigned)]. *)
Definition show_hex_raw (c : list byte) (length : Z) : outcome string :=
  show_hex_raw_loop c 0 (Z.to_nat length) String.EmptyString.

End Hex.

(** ** Facts about the conversions *)

Lemma of_to_uint8 (z : Z) : of_uint8 (to_uint8 z) = z mod 256.
Proof.
  unfold of_uint8, to_uint8.
  assert (Hr : 0 <= z mod 256 < 256) by (apply Z.mod_pos_bound; lia).
  destruct (Byte.of_N (Z.to_N (z mod 256))) as [b|] eqn:Hb.
  - apply Byte.to_of_N in Hb. rewrite Hb. lia.
  - apply Byte.of_N_None_iff in Hb. lia.
Qed.

Lemma of_uint8_range (b : byte) : 0 <= of_uint8 b < 256.
Proof.
  unfold of_uint8. pose proof (Byte.to_N_bounded b). lia.
Qed.

Lemma to_of_uint8 (b : byte) : to_uint8 (of_uint8 b) = b.
Proof.
  unfold to_uint8. pose proof (of_uint8_range b) as Hr.
  rewrite Z.mod_small by lia. unfold of_uint8.
  rewrite N2Z.id, Byte.of_to_N. reflexivity.
Qed.

Lemma land_255 (z : Z) : Z.land z 255 = z mod 256.
Proof. change 255 with (Z.ones 8). rewrite Z.land_ones by lia. reflexivity. Qed.

Lemma to_unsigned_small (z : Z) : 0 <= z < 2 ^ 32 -> to_unsigned z = z.
Proof. intros Hz. unfold to_unsigned, UINT_MODULUS. apply Z.mod_small; lia. Qed.

Lemma to_size_t_small (z : Z) : 0 <= z < 2 ^ 64 -> to_size_t z = z.
Proof. intros Hz. unfold to_size_t, SIZE_MODULUS. apply Z.mod_small; lia. Qed.

Lemma to_int_small (z : Z) : is_int z -> to_int z = z.
Proof.
  unfold is_int, INT_MIN, INT_MAX, to_int, UINT_MODULUS. intros Hz.
  rewrite Z.mod_small; lia.
Qed.

Lemma to_unsigned_range (z : Z) : 0 <= to_unsigned z < 2 ^ 32.
Proof. unfold to_unsigned, UINT_MODULUS. apply Z.mod_pos_bound; lia. Qed.

(** ** Facts about arrays *)

Lemma size_nonneg (buf : list byte) : 0 <= size buf.
Proof. unfold size. lia. Qed.

Lemma store_Ret (buf : list byte) (i : nat) (b : byte) :
  (i < length buf)%nat -> store buf i b = Ret (<[i := b]> buf).
Proof. intros Hi. unfold store. destruct (decide (i < length buf)%nat); [done | lia]. Qed.

Lemma store_inv (buf buf' : list byte) (i : nat) (b : byte) :
  store buf i b = Ret buf' -> (i < length buf)%nat /\ buf' = <[i := b]> buf.
Proof.
  unfold store. destruct (decide (i < length buf)%nat); [| discriminate].
  intros [= <-]. done.
Qed.

Lemma store_bytes_inv (bs buf buf' : list byte) (off : nat) :
  store_bytes buf off bs = Ret buf' ->
  length buf' = length buf /\
  forall i : nat, (i < off \/ off + length bs <= i)%nat -> buf' !! i = buf !! i.
Proof.
  revert buf off. induction bs as [| b bs IH]; intros buf off; simpl.
  - intros [= <-]. done.
  - destruct (store buf off b) as [buf1 |] eqn:Hst; [| discriminate].
    apply store_inv in Hst as [Hoff ->]. simpl. intros Hrest.
    apply IH in Hrest as [Hlen Hout]. rewrite length_insert in Hlen.
    split; [done |]. intros i Hi.
    rewrite Hout by lia. apply list_lookup_insert_ne. lia.
Qed.

Lemma store_bytes_Ret (bs buf : list byte) (off : nat) :
  (off + length bs <= length buf)%nat ->
  store_bytes buf off bs = Ret (take off buf ++ bs ++ drop (off + length bs) buf).
Proof.
  revert buf off. induction bs as [| b bs IH]; intros buf off Hlen; simpl in *.
  - rewrite Nat.add_0_r, take_drop. reflexivity.
  - rewrite store_Ret by lia. simpl.
    rewrite IH by (rewrite length_insert; lia).
    f_equal.
    rewrite (take_S_r _ _ b) by (apply list_lookup_insert_eq; lia).
    rewrite take_insert_ge by lia.
    rewrite drop_insert_lt by lia.
    rewrite <- app_assoc. simpl.
    replace (off + S (length bs))%nat with (S (off + length bs)) by lia.
    reflexivity.
Qed.

(** ** The header *)

Section Header.

Lemma store_header (buf : list byte) (value : Z) :
  4 <= size buf ->
  (buf ← store buf 0 (to_uint8 (Z.land (Z.shiftr value 24) 255));
   buf ← store buf 1 (to_uint8 (Z.land (Z.shiftr value 16) 255));
   buf ← store buf 2 (to_uint8 (Z.land (Z.shiftr value 8) 255));
   buf ← store buf 3 (to_uint8 (Z.land value 255));
   Ret buf) = Ret (header_bytes value ++ drop 4 buf).
Proof.
  unfold size. intros Hlen.
  destruct buf as [| b0 [| b1 [| b2 [| b3 rest]]]]; simpl in Hlen; try lia.
  do 4 (rewrite store_Ret by (simpl; lia); cbn [mbind outcome_bind]).
  reflexivity.
Qed.

Lemma encode_header_Ret (buf : data_buffer) (value : Z) :
  4 <= size buf ->
  encode_header buf value = Ret (header_bytes value ++ drop 4 buf).
Proof.
  intros Hlen. unfold encode_header, HEADER_SIZE.
  rewrite (proj2 (Z.leb_le 4 (size buf)) Hlen). simpl.
  apply store_header, Hlen.
Qed.

Lemma encode_header_inv (buf buf' : data_buffer) (value : Z) :
  encode_header buf value = Ret buf' ->
  4 <= size buf /\ buf' = header_bytes value ++ drop 4 buf.
Proof.
  intros Henc. destruct (Z.leb_spec 4 (size buf)) as [Hlen | Hlen].
  - rewrite encode_header_Ret in Henc by done. by injection Henc as <-.
  - unfold encode_header, HEADER_SIZE in Henc.
    rewrite (proj2 (Z.leb_gt 4 (size buf)) Hlen) in Henc. discriminate.
Qed.

Lemma encode_header_raw_Ret (buf : list byte) (buf_size value : Z) :
  4 <= buf_size -> 4 <= size buf ->
  encode_header_raw buf buf_size value = Ret (header_bytes value ++ drop 4 buf).
Proof.
  intros Hn Hlen. unfold encode_header_raw, HEADER_SIZE.
  rewrite (proj2 (Z.leb_le 4 buf_size) Hn). simpl.
  apply store_header, Hlen.
Qed.

Lemma decode_loop_header (b0 b1 b2 b3 : byte) (rest : list byte) :
  decode_loop (b0 :: b1 :: b2 :: b3 :: rest) 0 4 0
  = Ret (big_endian_value [b0; b1; b2; b3]).
Proof.
  pose proof (of_uint8_range b0). pose proof (of_uint8_range b1).
  pose proof (of_uint8_range b2). pose proof (of_uint8_range b3).
  cbn [decode_loop load lookup list_lookup mbind outcome_bind].
  rewrite !land_255, !(Z.mod_small (of_uint8 _) 256) by lia.
  rewrite (to_unsigned_small (0 * 256 + _)) by lia.
  rewrite (to_unsigned_small ((0 * 256 + _) * 256 + _)) by lia.
  rewrite (to_unsigned_small (((0 * 256 + _) * 256 + _) * 256 + _)) by lia.
  rewrite (to_unsigned_small ((((0 * 256 + _) * 256 + _) * 256 + _) * 256 + _)) by lia.
  reflexivity.
Qed.

Lemma decode_header_cons (b0 b1 b2 b3 : byte) (rest : list byte) :
  decode_header (b0 :: b1 :: b2 :: b3 :: rest)
  = Ret (big_endian_value [b0; b1; b2; b3]).
Proof.
  unfold decode_header, HEADER_SIZE.
  assert (Hlen : 4 <= size (b0 :: b1 :: b2 :: b3 :: rest))
    by (unfold size; simpl; lia).
  rewrite (proj2 (Z.ltb_ge _ _) Hlen).
  change (Z.to_nat 4) with 4%nat. apply decode_loop_header.
Qed.

Lemma decode_header_short (buf : data_buffer) :
  size buf < 4 -> decode_header buf = Ret 0.
Proof.
  intros Hlen. unfold decode_header, HEADER_SIZE.
  by rewrite (proj2 (Z.ltb_lt _ _) Hlen).
Qed.

Lemma big_endian_header_bytes (value : Z) :
  0 <= value < 2 ^ 32 -> big_endian_value (header_bytes value) = value.
Proof.
  intros Hv. unfold big_endian_value, header_bytes. simpl.
  rewrite !of_to_uint8, !land_255, !Z.shiftr_div_pow2 by lia.
  change (2 ^ 24) with 16777216. change (2 ^ 16) with 65536.
  change (2 ^ 8) with 256. change (2 ^ 32) with 4294967296 in Hv.
  Z.div_mod_to_equations. lia.
Qed.

Lemma decode_header_frame (value : Z) (body : list byte) :
  0 <= value < 2 ^ 32 ->
  decode_header (header_bytes value ++ body) = Ret value.
Proof.
  intros Hv. unfold header_bytes at 1. simpl.
  rewrite decode_header_cons. f_equal. by apply big_endian_header_bytes.
Qed.

End Header.

(** ** Packing into a [data_buffer] *)

Lemma store_bytes_fits (bs buf buf' : list byte) (off : nat) :
  store_bytes buf off bs = Ret buf' ->
  (off <= length buf)%nat ->
  (off + length bs <= length buf)%nat.
Proof.
  revert buf off. induction bs as [| b bs IH]; intros buf off; simpl.
  - lia.
  - destruct (store buf off b) as [buf1 |] eqn:Hst; [| discriminate].
    apply store_inv in Hst as [Hoff ->]. simpl. intros Hrest _.
    apply IH in Hrest; rewrite length_insert in *; lia.
Qed.

Lemma store_bytes_shape (bs buf buf' : list byte) (off : nat) :
  store_bytes buf off bs = Ret buf' ->
  (off <= length buf)%nat ->
  buf' = take off buf ++ bs ++ drop (off + length bs) buf.
Proof.
  intros Hst Hoff. pose proof (store_bytes_fits _ _ _ _ Hst Hoff) as Hfit.
  rewrite store_bytes_Ret in Hst by done. by injection Hst as <-.
Qed.

Section Pack.

Context {M : Type} `{MessageType M}.

Lemma serialize_at_inv (m : M) (buf buf' : list byte) (off : nat) (n : Z) (ok : bool) :
  serialize_at m buf off n = Ret (ok, buf') ->
  (off <= length buf)%nat ->
  exists written : list byte,
    SerializeToArray m n = (ok, written) /\
    size written <= Z.max 0 n /\
    (off + length written <= length buf)%nat /\
    buf' = take off buf ++ written ++ drop (off + length written) buf.
Proof.
  unfold serialize_at. destruct (SerializeToArray m n) as [ok' written].
  destruct (Z.leb_spec (size written) (Z.max 0 n)) as [Hw | Hw]; [| discriminate].
  cbn [assert mbind outcome_bind].
  destruct (store_bytes buf off written) as [buf1 |] eqn:Hst; [| discriminate].
  intros [= <- <-] Hoff. exists written.
  split; [done |]. split; [done |].
  split; [by eapply store_bytes_fits | by apply store_bytes_shape].
Qed.

Lemma serialize_at_Ret (m : M) (buf written : list byte) (off : nat) (n : Z) (ok : bool) :
  SerializeToArray m n = (ok, written) ->
  size written <= Z.max 0 n ->
  (off + length written <= length buf)%nat ->
  serialize_at m buf off n
  = Ret (ok, take off buf ++ written ++ drop (off + length written) buf).
Proof.
  intros Hser Hw Hfit. unfold serialize_at. rewrite Hser.
  rewrite (proj2 (Z.leb_le _ _) Hw). cbn [assert mbind outcome_bind].
  by rewrite store_bytes_Ret.
Qed.

(** What a returning [pack] has done: the buffer is the header of the
    converted size followed by exactly that many bytes. *)
Lemma pack_inv (m : M) (buf0 buf : data_buffer) (ok : bool) :
  pack (holding m) buf0 = Ret (ok, buf) ->
  exists body : list byte,
    buf = header_bytes (to_unsigned (ByteSize m)) ++ body /\
    size body = to_unsigned (ByteSize m).
Proof.
  unfold pack, holding; cbn [m_msg].
  pose proof (to_unsigned_range (ByteSize m)) as Hn.
  set (n := to_unsigned (ByteSize m)) in *.
  set (buf1 := resize _ x00 buf0).
  destruct (encode_header buf1 n) as [buf2 |] eqn:Henc; [| discriminate].
  cbn [mbind outcome_bind].
  apply encode_header_inv in Henc as [Hlen ->].
  assert (Hsz : size buf1 = to_unsigned (HEADER_SIZE + n)).
  { unfold size, buf1. rewrite length_resize.
    pose proof (to_unsigned_range (HEADER_SIZE + n)). lia. }
  assert (Hwrap : 4 + n < 2 ^ 32).
  { rewrite Hsz in Hlen. unfold to_unsigned, UINT_MODULUS, HEADER_SIZE in Hlen.
    destruct (Z.lt_ge_cases (4 + n) (2 ^ 32)) as [| Hge]; [done |].
    rewrite <- (Z.mod_unique_pos (4 + n) (2 ^ 32) 1 (4 + n - 2 ^ 32)) in Hlen; lia. }
  rewrite to_unsigned_small in Hsz by (unfold HEADER_SIZE; lia).
  assert (Hdrop : size (drop 4 buf1) = n).
  { unfold size in *. rewrite length_drop. unfold HEADER_SIZE in Hsz. lia. }
  change (Z.to_nat HEADER_SIZE) with 4%nat.
  destruct (Z.ltb_spec 0 n) as [Hpos | Hzero].
  - intros Hser. apply serialize_at_inv in Hser as (written & _ & _ & Hfit & ->);
      [| rewrite length_app; unfold header_bytes; simpl; lia].
    change (take 4 (header_bytes n ++ drop 4 buf1)) with (header_bytes n).
    exists (written ++ drop (4 + length written) (header_bytes n ++ drop 4 buf1)).
    split; [done |].
    unfold size in *. rewrite length_app, length_drop in *.
    simpl in Hfit |- *. rewrite ?length_drop. lia.
  - intros [= <- <-]. exists (drop 4 buf1). split; [done | lia].
Qed.

Lemma pack_Ret (m : M) (buf0 body : data_buffer) (ok : bool) :
  well_sized m ->
  0 < ByteSize m ->
  SerializeToArray m (ByteSize m) = (ok, body) ->
  size body = ByteSize m ->
  pack (holding m) buf0 = Ret (ok, header_bytes (ByteSize m) ++ body).
Proof.
  unfold well_sized, INT_MAX. intros Hm Hpos Hser Hbody.
  unfold pack, holding; cbn [m_msg].
  rewrite (to_unsigned_small (ByteSize m)) by lia.
  rewrite to_unsigned_small by (unfold HEADER_SIZE; lia).
  rewrite to_int_small by (unfold is_int, INT_MIN, INT_MAX; lia).
  set (buf1 := resize _ x00 buf0).
  assert (Hsz : size buf1 = 4 + ByteSize m).
  { unfold size, buf1, HEADER_SIZE. rewrite length_resize. lia. }
  rewrite encode_header_Ret by lia. cbn [mbind outcome_bind].
  rewrite (proj2 (Z.ltb_lt _ _) Hpos).
  change (Z.to_nat HEADER_SIZE) with 4%nat.
  assert (Hfit : (4 + length body = length buf1)%nat) by (unfold size in *; lia).
  rewrite (serialize_at_Ret m _ body 4 _ ok Hser) by (simpl; rewrite ?length_drop; lia).
  do 2 f_equal.
  change (take 4 (header_bytes (ByteSize m) ++ drop 4 buf1))
    with (header_bytes (ByteSize m)).
  rewrite drop_ge; [by rewrite app_nil_r |].
  rewrite length_app, length_drop. simpl. lia.
Qed.

Lemma pack_Ret_empty (m : M) (buf0 : data_buffer) :
  ByteSize m = 0 ->
  pack (holding m) buf0 = Ret (true, header_bytes 0).
Proof.
  intros Hzero. unfold pack, holding; cbn [m_msg]. rewrite Hzero.
  change (to_unsigned 0) with 0.
  change (Z.to_nat (to_unsigned (HEADER_SIZE + 0))) with 4%nat.
  set (buf1 := resize 4 x00 buf0).
  assert (Hlen : length buf1 = 4%nat) by apply length_resize.
  rewrite encode_header_Ret by (unfold size; lia).
  cbn [mbind outcome_bind]. change (0 <? 0) with false. cbv iota.
  rewrite drop_ge by lia. by rewrite app_nil_r.
Qed.

End Pack.

(** ** Unpacking *)

Section Unpack.

Context {M : Type} `{MessageType M}.

Lemma unpack_frame (t : M) (header body : list byte) :
  length header = 4%nat ->
  0 < size body <= INT_MAX ->
  unpack (holding t) (header ++ body)
  = Ret (ParseFromArray (Clear t) body (size body)).
Proof.
  unfold INT_MAX. intros Hh Hb. unfold unpack, holding; cbn [m_msg].
  assert (Hsz : size (header ++ body) - HEADER_SIZE = size body).
  { unfold size, HEADER_SIZE in *. rewrite length_app. lia. }
  rewrite Hsz, to_size_t_small by lia.
  rewrite (proj2 (Z.ltb_lt 0 (size body))) by lia.
  rewrite to_int_small by (unfold is_int, INT_MIN, INT_MAX; lia).
  change (Z.to_nat HEADER_SIZE) with 4%nat.
  by rewrite <- Hh, drop_app_length.
Qed.

Lemma unpack_header_only (t : M) (header : list byte) :
  length header = 4%nat ->
  unpack (holding t) header = Ret (true, Clear t).
Proof.
  intros Hh. unfold unpack, holding, size; cbn [m_msg]. by rewrite Hh.
Qed.

End Unpack.

(** ** Properties of the growable-buffer path *)

Section Growable.

Context {M : Type} `{MessageType M}.


(** C2 (header exactness).  When [pack] into a [data_buffer] succeeds for
    a message whose [ByteSize] is a byte count, the buffer is exactly
    [HEADER_SIZE + ByteSize] bytes long, and [decode_header] of it returns
    its length less [HEADER_SIZE]. *)
Theorem pack_header_exact (m : M) (buf0 buf : data_buffer) :
  well_sized m ->
  pack (holding m) buf0 = Ret (true, buf) ->
  size buf = HEADER_SIZE + ByteSize m /\
  decode_header buf = Ret (size buf - HEADER_SIZE).
Proof.
  unfold well_sized, INT_MAX. intros Hm Hpack.
  apply pack_inv in Hpack as (body & -> & Hbody).
  rewrite to_unsigned_small in * by lia.
  assert (Hsz : size (header_bytes (ByteSize m) ++ body) = HEADER_SIZE + ByteSize m).
  { unfold size, HEADER_SIZE in *. rewrite length_app. simpl. lia. }
  split; [done |].
  rewrite decode_header_frame, Hsz by lia. f_equal. lia.
Qed.

(** C10 (the concrete scenario).  For a message of encoded length 3 whose
    serializer stores the bytes 01 02 03, [pack] produces the seven bytes
    00 00 00 03 01 02 03 and [decode_header] of them returns 3; and
    [decode_header] of any buffer that starts with 00 00 01 00 returns
    256. *)
Theorem pack_three_bytes_scenario (m : M) (buf0 : data_buffer) :
  ByteSize m = 3 ->
  SerializeToArray m 3 = (true, [x01; x02; x03]) ->
  pack (holding m) buf0 = Ret (true, [x00; x00; x00; x03; x01; x02; x03]) /\
  decode_header [x00; x00; x00; x03; x01; x02; x03] = Ret 3 /\
  forall rest : list byte, decode_header (x00 :: x00 :: x01 :: x00 :: rest) = Ret 256.
Proof.
  intros Hsize Hser. split; [| split].
  - rewrite (pack_Ret m buf0 [x01; x02; x03] true).
    + by rewrite Hsize.
    + unfold well_sized, INT_MAX. lia.
    + lia.
    + by rewrite Hsize.
    + by rewrite Hsize.
  - by rewrite decode_header_cons.
  - intros rest. by rewrite decode_header_cons.
Qed.

End Growable.

(** ** Properties of the fixed-buffer path *)

Lemma int_add_Ret (a b : Z) : is_int (a + b) -> int_add a b = Ret (a + b).
Proof.
  unfold is_int, int_add. intros [Hlo Hhi].
  by rewrite (proj2 (Z.leb_le _ _) Hlo), (proj2 (Z.leb_le _ _) Hhi).
Qed.

Lemma int_add_inv (a b c : Z) : int_add a b = Ret c -> c = a + b /\ is_int c.
Proof.
  unfold is_int, int_add.
  destruct (Z.leb_spec INT_MIN (a + b)), (Z.leb_spec (a + b) INT_MAX);
    try discriminate.
  intros [= <-]. done.
Qed.

Lemma memset_inv (buf buf' : list byte) (c : byte) (n : Z) :
  memset buf c n = Ret buf' ->
  n <= size buf /\ buf' = replicate (Z.to_nat n) c ++ drop (Z.to_nat n) buf.
Proof.
  unfold memset. destruct (Z.leb_spec n (size buf)); [| discriminate].
  intros [= <-]. done.
Qed.

Lemma lookup_memset (buf : list byte) (c : byte) (n : Z) (i : nat) :
  Z.of_nat i < n ->
  (replicate (Z.to_nat n) c ++ drop (Z.to_nat n) buf) !! i = Some c.
Proof.
  intros Hi. rewrite lookup_app_l by (rewrite length_replicate; lia).
  apply lookup_replicate_2. lia.
Qed.

Lemma lookup_overwrite_ge (buf written : list byte) (off i : nat) :
  (off + length written <= length buf)%nat ->
  (off + length written <= i)%nat ->
  (take off buf ++ written ++ drop (off + length written) buf) !! i = buf !! i.
Proof.
  intros Hfit Hi.
  rewrite lookup_app_r by (rewrite length_take; lia).
  rewrite lookup_app_r by (rewrite length_take; lia).
  rewrite lookup_drop, length_take. f_equal. lia.
Qed.

Section Fixed.

Context {M : Type} `{MessageType M}.

(** The capacity test where it is sound.  The fixed-buffer [pack] succeeds
    only if the frame length [HEADER_SIZE + ByteSize] is strictly less than
    [buf_size]; and whenever [buf_size] is at most that length, the length
    being an [int] as the code computes it, [pack] returns false and leaves
    every byte of the caller's array as it was. *)
Theorem pack_raw_capacity (m : M) (buf : list byte) (buf_size : Z) :
  (forall buf' : list byte,
      pack_raw (holding m) buf buf_size = Ret (true, buf') ->
      HEADER_SIZE + ByteSize m < buf_size) /\
  (is_int (HEADER_SIZE + ByteSize m) ->
   buf_size <= HEADER_SIZE + ByteSize m ->
   pack_raw (holding m) buf buf_size = Ret (false, buf)).
Proof.
  unfold pack_raw, holding; cbn [m_msg]. split.
  - intros buf'.
    destruct (int_add HEADER_SIZE (ByteSize m)) as [frame_size |] eqn:Hadd;
      [| discriminate].
    apply int_add_inv in Hadd as [-> _]. cbn [mbind outcome_bind].
    destruct (Z.ltb_spec (HEADER_SIZE + ByteSize m) buf_size); [done | discriminate].
  - intros Hint Hcap. rewrite int_add_Ret by done. cbn [mbind outcome_bind].
    by rewrite (proj2 (Z.ltb_ge _ _) Hcap).
Qed.

(** C5, at the failing inputs.  For a message whose encoded length is
    within [HEADER_SIZE] of [INT_MAX], every [int] capacity is at most the
    frame length [HEADER_SIZE + ByteSize], so the message does not fit; but
    the sum the capacity test forms overflows [int], and [pack] does not
    return false with the array untouched: its behaviour is undefined. *)
Theorem pack_raw_size_overflow (m : M) (buf : list byte) (buf_size : Z) :
  INT_MAX - HEADER_SIZE < ByteSize m <= INT_MAX ->
  is_int buf_size ->
  buf_size <= HEADER_SIZE + ByteSize m /\
  pack_raw (holding m) buf buf_size = Fault.
Proof.
  unfold is_int. intros Hm HC. split; [unfold HEADER_SIZE in *; lia |].
  unfold pack_raw, holding, int_add; cbn [m_msg].
  rewrite (proj2 (Z.leb_gt (HEADER_SIZE + ByteSize m) INT_MAX))
    by (unfold HEADER_SIZE in *; lia).
  by rewrite andb_false_r.
Qed.

(** C6 (zero fill).  When the fixed-buffer [pack] succeeds with capacity
    [C] for a message of encoded length [ByteSize m], every byte of the
    array at an index from [HEADER_SIZE + ByteSize m] up to [C] is zero. *)
Theorem pack_raw_zero_fill (m : M) (buf buf' : list byte) (C : Z) (i : nat) :
  0 <= ByteSize m ->
  is_int C ->
  pack_raw (holding m) buf C = Ret (true, buf') ->
  HEADER_SIZE + ByteSize m <= Z.of_nat i < C ->
  buf' !! i = Some x00.
Proof.
  unfold is_int, INT_MIN, INT_MAX, HEADER_SIZE. intros Hm HC Hpack Hi.
  unfold pack_raw, holding in Hpack; cbn [m_msg] in Hpack.
  destruct (int_add HEADER_SIZE (ByteSize m)) as [frame_size |] eqn:Hadd;
    [| discriminate].
  apply int_add_inv in Hadd as [-> _]. cbn [mbind outcome_bind] in Hpack.
  unfold HEADER_SIZE in Hpack.
  rewrite (proj2 (Z.ltb_lt (4 + ByteSize m) C)) in Hpack by lia.
  rewrite to_size_t_small, (to_unsigned_small C) in Hpack by lia.
  destruct (memset buf x00 C) as [buf1 |] eqn:Hset; [| discriminate].
  apply memset_inv in Hset as [Hcap ->]. cbn [mbind outcome_bind] in Hpack.
  set (buf1 := replicate (Z.to_nat C) x00 ++ drop (Z.to_nat C) buf) in *.
  assert (Hlen1 : 4 <= size buf1).
  { unfold size, buf1 in *. rewrite length_app, length_replicate. lia. }
  assert (Hzero : buf1 !! i = Some x00) by (apply lookup_memset; lia).
  rewrite encode_header_raw_Ret in Hpack by lia.
  cbn [mbind outcome_bind] in Hpack.
  set (buf2 := header_bytes _ ++ drop 4 buf1) in *.
  assert (Hlen2 : length buf2 = length buf1).
  { unfold buf2, size in *. rewrite length_app, length_drop. simpl. lia. }
  assert (Hkeep : buf2 !! i = buf1 !! i).
  { unfold buf2. rewrite lookup_app_r by (simpl; lia).
    rewrite lookup_drop. simpl. f_equal. lia. }
  destruct (Z.ltb_spec 0 (ByteSize m)) as [Hpos | Hnone].
  - change (Z.to_nat 4) with 4%nat in Hpack.
    apply serialize_at_inv in Hpack as (written & _ & Hw & Hfit & ->);
      [| unfold size in *; lia].
    unfold size in Hw. rewrite lookup_overwrite_ge by lia. congruence.
  - injection Hpack as <-. congruence.
Qed.

End Fixed.

(** ** The two forms of [decode_header] *)

(** C7.  On the same bytes with the same length the two [decode_header]
    overloads return the same value, whatever memory lies beyond the length
    given to the pointer form: 0 when the bytes are fewer than
    [HEADER_SIZE], and otherwise the big-endian value of the first four. *)
Theorem decode_header_forms_agree (buf beyond : list byte) :
  decode_header_raw (buf ++ beyond) (size buf) = decode_header buf /\
  decode_header buf
  = Ret (if size buf <? HEADER_SIZE then 0 else big_endian_value (take 4 buf)).
Proof.
  unfold decode_header_raw, decode_header.
  destruct (Z.ltb_spec (size buf) HEADER_SIZE) as [Hshort | Hlong]; [done |].
  unfold size, HEADER_SIZE in Hlong.
  destruct buf as [| b0 [| b1 [| b2 [| b3 rest]]]]; simpl in Hlong; try lia.
  change (Z.to_nat HEADER_SIZE) with 4%nat. simpl app.
  by rewrite !decode_loop_header.
Qed.

(** ** Properties of [unpack] *)

Section UnpackProperties.

Context {M : Type} `{MessageType M}.

(** C8.  [unpack] never looks at the header: on two buffers of equal
    length that agree from offset [HEADER_SIZE] on, both forms of [unpack]
    return the same result and leave the message in the same state. *)
Theorem unpack_ignores_header (self : PackedMessage M) (buf1 buf2 : list byte)
    (buf_size : Z) :
  length buf1 = length buf2 ->
  drop (Z.to_nat HEADER_SIZE) buf1 = drop (Z.to_nat HEADER_SIZE) buf2 ->
  unpack self buf1 = unpack self buf2 /\
  unpack_raw self buf1 buf_size = unpack_raw self buf2 buf_size.
Proof.
  intros Hlen Hbody. unfold unpack, unpack_raw, size.
  rewrite Hlen, Hbody. done.
Qed.

(** C9.  With no message referenced both forms of [pack] return false and
    leave the buffer alone, while both forms of [unpack] dereference the
    empty handle: there is no guarded false return. *)
Theorem unpack_without_message_faults (buf : list byte) (buf_size : Z) :
  pack (M := M) empty_handle buf = Ret (false, buf) /\
  pack_raw (M := M) empty_handle buf buf_size = Ret (false, buf) /\
  unpack (M := M) empty_handle buf = Fault /\
  unpack_raw (M := M) empty_handle buf buf_size = Fault.
Proof. done. Qed.

(** C3, at the failing inputs.  On a buffer of fewer than [HEADER_SIZE]
    bytes the length test of [unpack] does not see an empty body: the
    unsigned difference wraps, the test passes, and the parser is called
    with a negative size on the address past the header.  What [unpack]
    returns there is what the parser returns. *)
Theorem unpack_short_buffer_calls_parser (t : M) (b0 b1 b2 : byte) (mem : list byte) :
  unpack (holding t) [] = Ret (ParseFromArray (Clear t) [] (-4)) /\
  unpack (holding t) [b0] = Ret (ParseFromArray (Clear t) [] (-3)) /\
  unpack (holding t) [b0; b1] = Ret (ParseFromArray (Clear t) [] (-2)) /\
  unpack (holding t) [b0; b1; b2] = Ret (ParseFromArray (Clear t) [] (-1)) /\
  unpack_raw (holding t) mem 0
  = Ret (ParseFromArray (Clear t) (drop 4 mem) (-4)) /\
  unpack_raw (holding t) mem 3
  = Ret (ParseFromArray (Clear t) (drop 4 mem) (-1)).
Proof. done. Qed.

(** The two ways [unpack] returns: without a parse, or with the parser's
    own result on the cleared message. *)
Lemma unpack_cases (t : M) (buf : data_buffer) :
  unpack (holding t) buf = Ret (true, Clear t) \/
  exists n : Z,
    unpack (holding t) buf
    = Ret (ParseFromArray (Clear t) (drop (Z.to_nat HEADER_SIZE) buf) n).
Proof.
  unfold unpack, holding; cbn [m_msg].
  destruct (0 <? _); [right; eauto | by left].
Qed.

Lemma unpack_raw_cases (t : M) (buf : list byte) (buf_size : Z) :
  unpack_raw (holding t) buf buf_size = Ret (true, Clear t) \/
  exists n : Z,
    unpack_raw (holding t) buf buf_size
    = Ret (ParseFromArray (Clear t) (drop (Z.to_nat HEADER_SIZE) buf) n).
Proof.
  unfold unpack_raw, holding; cbn [m_msg].
  destruct (0 <? _); [right; eauto | by left].
Qed.

(** C4, as the code has it.  When either form of [unpack] returns false,
    the message is in the state in which the parser, run on the cleared
    message and the bytes after the header, left it. *)
Theorem unpack_failure_state (t t' : M) (buf : list byte) (buf_size : Z) :
  unpack (holding t) buf = Ret (false, t') \/
  unpack_raw (holding t) buf buf_size = Ret (false, t') ->
  exists n : Z,
    ParseFromArray (Clear t) (drop (Z.to_nat HEADER_SIZE) buf) n = (false, t').
Proof.
  intros [Hun | Hun].
  - destruct (unpack_cases t buf) as [Hc | [n Hc]]; rewrite Hc in Hun.
    + discriminate.
    + injection Hun as Hparse. eauto.
  - destruct (unpack_raw_cases t buf buf_size) as [Hc | [n Hc]]; rewrite Hc in Hun.
    + discriminate.
    + injection Hun as Hparse. eauto.
Qed.

(** With a parser that leaves its message untouched whenever it rejects,
    a failed [unpack] leaves the message cleared. *)
Lemma unpack_failure_cleared (t t' : M) (buf : data_buffer) :
  (forall (m : M) (data : list byte) (n : Z),
      (ParseFromArray m data n).1 = false -> (ParseFromArray m data n).2 = m) ->
  unpack (holding t) buf = Ret (false, t') ->
  t' = Clear t.
Proof.
  intros Hatomic Hun.
  destruct (unpack_cases t buf) as [Hc | [n Hc]]; rewrite Hc in Hun.
  - discriminate.
  - injection Hun as Hparse. specialize (Hatomic (Clear t) (drop (Z.to_nat HEADER_SIZE) buf) n).
    rewrite Hparse in Hatomic. by apply Hatomic.
Qed.

(** The outcome of [unpack] depends on the message only through its
    cleared state: nothing of the prior contents survives. *)
Lemma unpack_forgets_prior_state (t1 t2 : M) (buf : data_buffer) :
  Clear t1 = Clear t2 ->
  unpack (holding t1) buf = unpack (holding t2) buf.
Proof.
  intros Hclear. unfold unpack, holding; cbn [m_msg]. by rewrite Hclear.
Qed.

End UnpackProperties.

(** ** The properties at the sample message *)

Import Samples (m3, stale).


Lemma pack_header_exact_witness :
  pack (holding m3) [xff] = Ret (true, [x00; x00; x00; x03; x01; x02; x03]) /\
  size [x00; x00; x00; x03; x01; x02; x03] = HEADER_SIZE + ByteSize m3 /\
  decode_header [x00; x00; x00; x03; x01; x02; x03]
  = Ret (size [x00; x00; x00; x03; x01; x02; x03] - HEADER_SIZE).
Proof.
  split; [reflexivity |].
  apply (pack_header_exact m3 [xff]).
  - split; vm_compute; discriminate.
  - reflexivity.
Defined.

Lemma pack_three_bytes_scenario_witness :
  pack (holding m3) [] = Ret (true, [x00; x00; x00; x03; x01; x02; x03]) /\
  decode_header [x00; x00; x00; x03; x01; x02; x03] = Ret 3 /\
  forall rest : list byte, decode_header (x00 :: x00 :: x01 :: x00 :: rest) = Ret 256.
Proof.
  apply (pack_three_bytes_scenario m3 []); reflexivity.
Defined.

Lemma pack_raw_capacity_witness :
  is_int (HEADER_SIZE + ByteSize m3) /\
  pack_raw (holding m3) (replicate 7 xaa) 7 = Ret (false, replicate 7 xaa) /\
  (forall buf' : list byte,
      pack_raw (holding m3) (replicate 8 xaa) 8 = Ret (true, buf') ->
      HEADER_SIZE + ByteSize m3 < 8).
Proof.
  assert (Hint : is_int (HEADER_SIZE + ByteSize m3))
    by (split; vm_compute; discriminate).
  split; [exact Hint |]. split.
  - apply (proj2 (pack_raw_capacity m3 (replicate 7 xaa) 7) Hint).
    vm_compute. discriminate.
  - apply (proj1 (pack_raw_capacity m3 (replicate 8 xaa) 8)).
Defined.

Lemma pack_raw_zero_fill_witness :
  pack_raw (holding m3) (replicate 10 xaa) 10
  = Ret (true, [x00; x00; x00; x03; x01; x02; x03; x00; x00; x00]) /\
  [x00; x00; x00; x03; x01; x02; x03; x00; x00; x00] !! 8%nat = Some x00.
Proof.
  split; [reflexivity |].
  apply (pack_raw_zero_fill m3 (replicate 10 xaa) _ 10 8).
  - vm_compute. discriminate.
  - split; vm_compute; discriminate.
  - reflexivity.
  - split; vm_compute; [discriminate | reflexivity].
Defined.

Lemma unpack_ignores_header_witness :
  unpack (holding stale) [x00; x00; x00; x02; x01; x02]
  = unpack (holding stale) [xff; xff; xff; xff; x01; x02] /\
  unpack_raw (holding stale) [x00; x00; x00; x02; x01; x02] 6
  = unpack_raw (holding stale) [xff; xff; xff; xff; x01; x02] 6.
Proof.
  apply unpack_ignores_header; reflexivity.
Defined.

Lemma unpack_failure_state_witness :
  unpack (holding stale) [x00; x00; x00; x02; x01; xff] = Ret (false, [x01]) /\
  exists n : Z,
    ParseFromArray (Clear stale)
      (drop (Z.to_nat HEADER_SIZE) [x00; x00; x00; x02; x01; xff]) n
    = (false, [x01]).
Proof.
  split; [reflexivity |].
  apply (unpack_failure_state stale [x01] _ 6). left. reflexivity.
Defined.

(** C4, as stated, fails: the parser of [Samples] rejects the body 01 FF at
    its second byte, [unpack] returns false, and the message holds the one
    field decoded before the rejection, which is not its cleared state. *)
Lemma unpack_failure_keeps_partial_state :
  unpack (holding stale) [x00; x00; x00; x02; x01; xff] = Ret (false, [x01]) /\
  [x01] <> Clear stale.
Proof. split; [reflexivity | discriminate]. Qed.

(** C3 at the empty buffer: the parser of [Samples] refuses the negative
    size, so [unpack] returns false where an empty body would return true. *)
Lemma unpack_empty_buffer_rejected :
  decode_header [] = Ret 0 /\
  unpack (holding stale) [] = Ret (false, []).
Proof. split; reflexivity. Qed.

(** ** More on the header *)

Lemma header_bytes_big_endian (b0 b1 b2 b3 : byte) :
  header_bytes (big_endian_value [b0; b1; b2; b3]) = [b0; b1; b2; b3].
Proof.
  pose proof (of_uint8_range b0). pose proof (of_uint8_range b1).
  pose proof (of_uint8_range b2). pose proof (of_uint8_range b3).
  unfold header_bytes, big_endian_value. simpl.
  rewrite !land_255, !Z.shiftr_div_pow2 by lia.
  change (2 ^ 24) with 16777216. change (2 ^ 16) with 65536.
  change (2 ^ 8) with 256.
  set (v := ((_ * 256 + _) * 256 + _) * 256 + _).
  assert (V0 : (v / 16777216) mod 256 = of_uint8 b0)
    by (subst v; Z.div_mod_to_equations; lia).
  assert (V1 : (v / 65536) mod 256 = of_uint8 b1)
    by (subst v; Z.div_mod_to_equations; lia).
  assert (V2 : (v / 256) mod 256 = of_uint8 b2)
    by (subst v; Z.div_mod_to_equations; lia).
  assert (V3 : v mod 256 = of_uint8 b3)
    by (subst v; Z.div_mod_to_equations; lia).
  unfold to_uint8. rewrite !Zmod_mod, V0, V1, V2, V3.
  pose proof (to_of_uint8 b0) as E0. pose proof (to_of_uint8 b1) as E1.
  pose proof (to_of_uint8 b2) as E2. pose proof (to_of_uint8 b3) as E3.
  unfold to_uint8 in E0, E1, E2, E3.
  rewrite Z.mod_small in E0, E1, E2, E3 by lia.
  by rewrite E0, E1, E2, E3.
Qed.

Lemma big_endian_range (b0 b1 b2 b3 : byte) :
  0 <= big_endian_value [b0; b1; b2; b3] < 2 ^ 32.
Proof.
  pose proof (of_uint8_range b0). pose proof (of_uint8_range b1).
  pose proof (of_uint8_range b2). pose proof (of_uint8_range b3).
  unfold big_endian_value. simpl. lia.
Qed.

Lemma encode_header_Fault (buf : data_buffer) (value : Z) :
  size buf < 4 -> encode_header buf value = Fault.
Proof.
  intros Hlen. unfold encode_header, HEADER_SIZE.
  by rewrite (proj2 (Z.leb_gt 4 (size buf)) Hlen).
Qed.

(** X1.  On a buffer of at least [HEADER_SIZE] bytes [encode_header] of an
    [unsigned] value succeeds; [decode_header] of the result returns that
    value; and the buffer keeps its length and every byte after the
    header. *)
Theorem encode_then_decode_header (buf : data_buffer) (value : Z) :
  HEADER_SIZE <= size buf ->
  0 <= value < 2 ^ 32 ->
  exists buf' : data_buffer,
    encode_header buf value = Ret buf' /\
    decode_header buf' = Ret value /\
    length buf' = length buf /\
    drop (Z.to_nat HEADER_SIZE) buf' = drop (Z.to_nat HEADER_SIZE) buf.
Proof.
  unfold HEADER_SIZE. intros Hlen Hv.
  exists (header_bytes value ++ drop 4 buf).
  split; [by apply encode_header_Ret |].
  split; [by apply decode_header_frame |].
  split; [| done].
  unfold size in Hlen. rewrite length_app, length_drop. simpl. lia.
Qed.

(** X2.  The two [encode_header] overloads do the same on an array and its
    true length, and both stop at their [assert] exactly when the array has
    fewer than [HEADER_SIZE] bytes. *)
Theorem encode_header_forms_agree (buf : data_buffer) (value : Z) :
  encode_header_raw buf (size buf) value = encode_header buf value /\
  (encode_header buf value = Fault <-> size buf < HEADER_SIZE).
Proof.
  split; [done |]. unfold HEADER_SIZE. split.
  - intros Hf. destruct (Z.lt_ge_cases (size buf) 4) as [| Hge]; [done |].
    rewrite encode_header_Ret in Hf by done. discriminate.
  - apply encode_header_Fault.
Qed.

(** X3.  Encoding the value [decode_header] read from a buffer of at least
    [HEADER_SIZE] bytes writes back the bytes that were there: the buffer is
    unchanged. *)
Theorem decode_then_encode_header (buf : data_buffer) (value : Z) :
  HEADER_SIZE <= size buf ->
  decode_header buf = Ret value ->
  encode_header buf value = Ret buf.
Proof.
  unfold HEADER_SIZE, size. intros Hlen Hdec.
  destruct buf as [| b0 [| b1 [| b2 [| b3 rest]]]]; simpl in Hlen; try lia.
  rewrite decode_header_cons in Hdec. injection Hdec as <-.
  rewrite encode_header_Ret by (unfold size; simpl; lia).
  by rewrite header_bytes_big_endian.
Qed.

(** X4.  [decode_header] of a [data_buffer] never reads outside the buffer,
    what it returns fits an [unsigned], and the loop never wraps: on a
    buffer that holds a header, the same loop run in unbounded integers
    returns the same value. *)
Theorem decode_header_never_wraps (buf : data_buffer) :
  exists value : Z,
    decode_header buf = Ret value /\
    0 <= value < 2 ^ 32 /\
    (HEADER_SIZE <= size buf ->
     decode_loop_unbounded buf 0 (Z.to_nat HEADER_SIZE) 0 = Ret value).
Proof.
  unfold HEADER_SIZE.
  destruct (Z.lt_ge_cases (size buf) 4) as [Hshort | Hlong].
  - exists 0. split; [by apply decode_header_short |]. split; lia.
  - unfold size in Hlong.
    destruct buf as [| b0 [| b1 [| b2 [| b3 rest]]]]; simpl in Hlong; try lia.
    exists (big_endian_value [b0; b1; b2; b3]).
    split; [apply decode_header_cons |]. split; [apply big_endian_range |].
    intros _. change (Z.to_nat 4) with 4%nat.
    pose proof (of_uint8_range b0). pose proof (of_uint8_range b1).
    pose proof (of_uint8_range b2). pose proof (of_uint8_range b3).
    cbn [decode_loop_unbounded load lookup list_lookup mbind outcome_bind].
    rewrite !land_255, !(Z.mod_small (of_uint8 _) 256) by lia.
    reflexivity.
Qed.

(** ** More on packing into a [data_buffer] *)

Section PackMore.

Context {M : Type} `{MessageType M}.

(** [pack] at a message with a body, whatever the serializer answers. *)
Lemma pack_forward (m : M) (buf0 written : data_buffer) (ok : bool) :
  well_sized m ->
  0 < ByteSize m ->
  SerializeToArray m (ByteSize m) = (ok, written) ->
  size written <= ByteSize m ->
  exists rest : list byte,
    pack (holding m) buf0 = Ret (ok, header_bytes (ByteSize m) ++ written ++ rest) /\
    size written + size rest = ByteSize m.
Proof.
  unfold well_sized, INT_MAX. intros Hm Hpos Hser Hw.
  unfold pack, holding; cbn [m_msg].
  rewrite (to_unsigned_small (ByteSize m)) by lia.
  rewrite to_unsigned_small by (unfold HEADER_SIZE; lia).
  rewrite to_int_small by (unfold is_int, INT_MIN, INT_MAX; lia).
  set (buf1 := resize _ x00 buf0).
  assert (Hsz : size buf1 = 4 + ByteSize m).
  { unfold size, buf1, HEADER_SIZE. rewrite length_resize. lia. }
  rewrite encode_header_Ret by lia. cbn [mbind outcome_bind].
  rewrite (proj2 (Z.ltb_lt _ _) Hpos).
  change (Z.to_nat HEADER_SIZE) with 4%nat.
  unfold size in *.
  rewrite (serialize_at_Ret m _ written 4 _ ok Hser)
    by (unfold size; rewrite ?length_app, ?length_drop; simpl; lia).
  change (take 4 (header_bytes (ByteSize m) ++ drop 4 buf1))
    with (header_bytes (ByteSize m)).
  eexists. split; [reflexivity |].
  rewrite length_drop, length_app, length_drop. simpl. lia.
Qed.

(** X5.  For a message with a body, [pack] returns what the serializer
    returns, success or failure, provided the serializer stays inside the
    bytes it was given; either way the buffer has been resized to
    [HEADER_SIZE + ByteSize] and carries the header of that size. *)
Theorem pack_returns_serializer_result (m : M) (buf0 written : data_buffer)
    (ok : bool) :
  well_sized m ->
  0 < ByteSize m ->
  SerializeToArray m (ByteSize m) = (ok, written) ->
  size written <= ByteSize m ->
  exists buf : data_buffer,
    pack (holding m) buf0 = Ret (ok, buf) /\
    size buf = HEADER_SIZE + ByteSize m /\
    decode_header buf = Ret (ByteSize m).
Proof.
  intros Hm Hpos Hser Hw.
  destruct (pack_forward m buf0 written ok Hm Hpos Hser Hw) as (rest & Hpack & Hsz).
  eexists. split; [exact Hpack |].
  unfold well_sized, INT_MAX in Hm. split.
  - unfold size, HEADER_SIZE in *. rewrite !length_app. simpl. lia.
  - apply decode_header_frame. lia.
Qed.

(** X6.  A message of encoded length 0 packs to the four bytes 00 00 00 00
    without the serializer being asked; and [unpack] of any buffer of exactly
    [HEADER_SIZE] bytes, in either form, clears the message and returns true
    without calling the parser. *)
Theorem empty_body_frame (m t : M) (buf0 header beyond : list byte) :
  ByteSize m = 0 ->
  length header = 4%nat ->
  pack (holding m) buf0 = Ret (true, [x00; x00; x00; x00]) /\
  unpack (holding t) header = Ret (true, Clear t) /\
  unpack_raw (holding t) (header ++ beyond) HEADER_SIZE = Ret (true, Clear t).
Proof.
  intros Hzero Hh. split; [| split].
  - by rewrite pack_Ret_empty.
  - by apply unpack_header_only.
  - reflexivity.
Qed.

(** X7.  When the serializer stores exactly [ByteSize] bytes, what [pack]
    returns does not depend on what the buffer held before the call: nothing
    of the old contents survives, whatever its old length. *)
Theorem pack_discards_old_contents (m : M) (buf0 buf0' written : data_buffer)
    (ok : bool) :
  well_sized m ->
  SerializeToArray m (ByteSize m) = (ok, written) ->
  size written = ByteSize m ->
  pack (holding m) buf0 = pack (holding m) buf0'.
Proof.
  intros Hm Hser Hw.
  destruct (Z.eq_dec (ByteSize m) 0) as [Hzero | Hne].
  - by rewrite !pack_Ret_empty.
  - unfold well_sized in Hm.
    rewrite (pack_Ret m buf0 written ok), (pack_Ret m buf0' written ok);
      done || lia.
Qed.

End PackMore.

(** ** More on packing into a fixed array *)

Lemma decode_loop_frame (value : Z) (rest : list byte) :
  0 <= value < 2 ^ 32 ->
  decode_loop (header_bytes value ++ rest) 0 4 0 = Ret value.
Proof.
  intros Hv. unfold header_bytes at 1. simpl app.
  rewrite decode_loop_header. f_equal. by apply big_endian_header_bytes.
Qed.

Lemma drop_memset (buf : list byte) (C k : nat) :
  (k <= C)%nat ->
  drop k (replicate C x00 ++ drop C buf) = replicate (C - k) x00 ++ drop C buf.
Proof.
  intros Hk. rewrite drop_app_le by (rewrite length_replicate; lia).
  by rewrite drop_replicate.
Qed.

Section FixedMore.

Context {M : Type} `{MessageType M}.

(** The array after the [memset] and the header of a [pack] that passed its
    capacity test. *)
Lemma pack_raw_prologue (m : M) (buf : list byte) (C : Z)
    (k : list byte -> outcome (bool * list byte)) :
  0 <= ByteSize m ->
  is_int C ->
  HEADER_SIZE + ByteSize m < C <= size buf ->
  (buf ← memset buf x00 (to_size_t C);
   buf ← encode_header_raw buf (to_unsigned C) (to_unsigned (ByteSize m));
   k buf)
  = k (header_bytes (ByteSize m)
         ++ replicate (Z.to_nat C - 4) x00 ++ drop (Z.to_nat C) buf).
Proof.
  unfold is_int, INT_MIN, INT_MAX, HEADER_SIZE. intros Hm HC Hcap.
  rewrite to_size_t_small, !to_unsigned_small by lia.
  unfold memset. rewrite (proj2 (Z.leb_le C (size buf))) by lia.
  cbn [mbind outcome_bind].
  rewrite encode_header_raw_Ret;
    [| lia | unfold size; rewrite length_app, length_replicate; lia].
  cbn [mbind outcome_bind]. by rewrite drop_memset by lia.
Qed.

Lemma pack_raw_forward (m : M) (buf written : list byte) (C : Z) (ok : bool) :
  0 < ByteSize m ->
  is_int C ->
  HEADER_SIZE + ByteSize m < C <= size buf ->
  SerializeToArray m (ByteSize m) = (ok, written) ->
  size written <= ByteSize m ->
  pack_raw (holding m) buf C
  = Ret (ok, header_bytes (ByteSize m) ++ written
               ++ replicate (Z.to_nat C - 4 - length written) x00
               ++ drop (Z.to_nat C) buf).
Proof.
  intros Hpos HC Hcap Hser Hw.
  unfold pack_raw, holding; cbn [m_msg].
  rewrite int_add_Ret
    by (unfold is_int, INT_MIN, INT_MAX, HEADER_SIZE in *; lia).
  cbn [mbind outcome_bind].
  rewrite (proj2 (Z.ltb_lt _ C)) by lia.
  rewrite pack_raw_prologue by (done || lia).
  rewrite (proj2 (Z.ltb_lt 0 _) Hpos).
  change (Z.to_nat HEADER_SIZE) with 4%nat.
  unfold size, HEADER_SIZE in *.
  rewrite (serialize_at_Ret m _ written 4 _ ok Hser)
    by (unfold size; rewrite ?length_app, ?length_replicate; simpl; lia).
  do 2 f_equal.
  change (take 4 (header_bytes (ByteSize m) ++ ?l)) with (header_bytes (ByteSize m)).
  do 2 f_equal.
  change (drop (4 + length written) (header_bytes (ByteSize m) ++ ?l))
    with (drop (length written) l).
  rewrite drop_app_le by (rewrite length_replicate; lia).
  by rewrite drop_replicate.
Qed.

Lemma pack_raw_forward_empty (m : M) (buf : list byte) (C : Z) :
  ByteSize m = 0 ->
  is_int C ->
  HEADER_SIZE < C <= size buf ->
  pack_raw (holding m) buf C
  = Ret (true, header_bytes 0 ++ replicate (Z.to_nat C - 4) x00
                 ++ drop (Z.to_nat C) buf).
Proof.
  intros Hzero HC Hcap.
  unfold pack_raw, holding; cbn [m_msg].
  rewrite int_add_Ret by (rewrite Hzero; done).
  cbn [mbind outcome_bind].
  rewrite (proj2 (Z.ltb_lt _ C)) by lia.
  rewrite pack_raw_prologue by (done || lia).
  by rewrite Hzero.
Qed.

(** What a returning fixed-buffer [pack] has done. *)
Lemma pack_raw_inv (m : M) (buf buf' : list byte) (C : Z) (ok : bool) :
  0 <= ByteSize m ->
  is_int C ->
  pack_raw (holding m) buf C = Ret (ok, buf') ->
  (C <= HEADER_SIZE + ByteSize m /\ ok = false /\ buf' = buf) \/
  (HEADER_SIZE + ByteSize m < C <= size buf /\
   exists written : list byte,
     size written <= ByteSize m /\
     buf' = header_bytes (ByteSize m) ++ written
              ++ replicate (Z.to_nat C - 4 - length written) x00
              ++ drop (Z.to_nat C) buf).
Proof.
  intros Hm HC Hpack. pose proof Hpack as Hrun.
  unfold pack_raw, holding in Hrun; cbn [m_msg] in Hrun.
  destruct (int_add HEADER_SIZE (ByteSize m)) as [frame_size |] eqn:Hadd;
    [| discriminate].
  apply int_add_inv in Hadd as [-> _]. cbn [mbind outcome_bind] in Hrun.
  destruct (Z.ltb_spec (HEADER_SIZE + ByteSize m) C) as [Hlt | Hge].
  - right.
    destruct (memset buf x00 (to_size_t C)) as [buf1 |] eqn:Hset; [| discriminate].
    apply memset_inv in Hset as [Hcap _].
    rewrite to_size_t_small in Hcap
      by (unfold is_int, INT_MIN, INT_MAX, HEADER_SIZE in *; lia).
    clear Hrun. split; [lia |].
    destruct (Z.eq_dec (ByteSize m) 0) as [Hzero | Hne].
    + rewrite pack_raw_forward_empty in Hpack by (done || lia).
      injection Hpack as <- <-. exists []. rewrite Hzero.
      split; [done |]. simpl. by rewrite Nat.sub_0_r.
    + destruct (SerializeToArray m (ByteSize m)) as [ok' written] eqn:Hser.
      destruct (Z.le_gt_cases (size written) (ByteSize m)) as [Hw | Hw].
      * rewrite (pack_raw_forward m buf written C ok') in Hpack
          by (done || lia).
        injection Hpack as <- <-. by exists written.
      * exfalso. unfold pack_raw, holding in Hpack; cbn [m_msg] in Hpack.
        rewrite int_add_Ret in Hpack
          by (unfold is_int, INT_MIN, INT_MAX, HEADER_SIZE in *; lia).
        cbn [mbind outcome_bind] in Hpack.
        rewrite (proj2 (Z.ltb_lt _ C)) in Hpack by lia.
        rewrite pack_raw_prologue in Hpack by (done || lia).
        rewrite (proj2 (Z.ltb_lt 0 (ByteSize m))) in Hpack by lia.
        unfold serialize_at in Hpack. rewrite Hser in Hpack.
        rewrite (proj2 (Z.leb_gt _ _)) in Hpack by lia.
        discriminate.
  - left. injection Hrun as <- <-. done.
Qed.

End FixedMore.

Section FixedProperties.

Context {M : Type} `{MessageType M}.

(** X8.  When the serializer stores exactly [ByteSize] bytes and the
    capacity [C] is honest and large enough, the fixed-buffer [pack] returns
    what the growable [pack] returns and leaves in the array the growable
    frame, then zeros up to [C], then the caller's bytes beyond [C] as they
    were. *)
Theorem pack_raw_frame_then_padding (m : M) (buf0 buf written : list byte)
    (C : Z) (ok : bool) :
  well_sized m ->
  is_int C ->
  HEADER_SIZE + ByteSize m < C <= size buf ->
  SerializeToArray m (ByteSize m) = (ok, written) ->
  size written = ByteSize m ->
  exists (ok' : bool) (frame : data_buffer),
    pack (holding m) buf0 = Ret (ok', frame) /\
    pack_raw (holding m) buf C
    = Ret (ok', frame ++ replicate (Z.to_nat (C - HEADER_SIZE - ByteSize m)) x00
                  ++ drop (Z.to_nat C) buf).
Proof.
  unfold well_sized. intros Hm HC Hcap Hser Hw.
  destruct (Z.eq_dec (ByteSize m) 0) as [Hzero | Hne].
  - exists true, (header_bytes 0). split; [by apply pack_Ret_empty |].
    rewrite pack_raw_forward_empty by (done || lia).
    rewrite Hzero.
    replace (Z.to_nat (C - HEADER_SIZE - 0)) with (Z.to_nat C - 4)%nat
      by (unfold HEADER_SIZE; lia).
    reflexivity.
  - exists ok, (header_bytes (ByteSize m) ++ written).
    split; [apply pack_Ret; unfold well_sized; done || lia |].
    rewrite (pack_raw_forward m buf written C ok) by (done || lia).
    replace (Z.to_nat (C - HEADER_SIZE - ByteSize m))
      with (Z.to_nat C - 4 - length written)%nat
      by (unfold size, HEADER_SIZE in *; lia).
    by rewrite <- app_assoc.
Qed.


(** X10.  After a successful fixed-buffer [pack] the pointer form of
    [decode_header], given the same capacity, returns the encoded length of
    the message. *)
Theorem pack_raw_header_exact (m : M) (buf buf' : list byte) (C : Z) :
  0 <= ByteSize m ->
  is_int C ->
  pack_raw (holding m) buf C = Ret (true, buf') ->
  decode_header_raw buf' C = Ret (ByteSize m).
Proof.
  intros Hm HC Hpack.
  apply pack_raw_inv in Hpack; [| done | done].
  destruct Hpack as [(_ & [=] & _) | (Hcap & written & Hw & ->)].
  unfold decode_header_raw, is_int, INT_MAX, HEADER_SIZE in *.
  rewrite (proj2 (Z.ltb_ge C 4)) by lia.
  change (Z.to_nat 4) with 4%nat. apply decode_loop_frame. lia.
Qed.


End FixedProperties.

(** ** More on unpacking *)

Lemma to_int_size_t_unsigned (z : Z) : to_int (to_size_t z) = to_int (to_unsigned z).
Proof.
  unfold to_int, to_size_t, to_unsigned, SIZE_MODULUS, UINT_MODULUS.
  change (2 ^ 64) with 18446744073709551616.
  change (2 ^ 32) with 4294967296. change (2 ^ 31) with 2147483648.
  Z.div_mod_to_equations. lia.
Qed.

Section UnpackMore.

Context {M : Type} `{MessageType M}.

(** X12.  On an array and its true length, a length an [unsigned] can hold,
    the two [unpack] overloads do the same, the wrap-around on arrays
    shorter than the header included. *)
Theorem unpack_forms_agree (self : PackedMessage M) (buf : list byte) :
  size buf < 2 ^ 32 ->
  unpack_raw self buf (size buf) = unpack self buf.
Proof.
  intros Hlen. unfold unpack_raw, unpack.
  destruct (m_msg self) as [m |]; [| done].
  rewrite to_int_size_t_unsigned.
  assert (Htest : (0 <? to_unsigned (size buf - HEADER_SIZE))
                  = (0 <? to_size_t (size buf - HEADER_SIZE))).
  { pose proof (size_nonneg buf).
    unfold to_size_t, to_unsigned, SIZE_MODULUS, UINT_MODULUS, HEADER_SIZE.
    change (2 ^ 64) with 18446744073709551616.
    change (2 ^ 32) with 4294967296 in *.
    destruct (Z.ltb_spec 0 ((size buf - 4) mod 4294967296)),
             (Z.ltb_spec 0 ((size buf - 4) mod 18446744073709551616));
      try done; exfalso; Z.div_mod_to_equations; lia. }
  by rewrite Htest.
Qed.

(** X13.  On a frame, a header of [HEADER_SIZE] bytes followed by a body of
    at least one byte and at most [INT_MAX], both forms of [unpack] hand the
    parser the cleared message, the address of the first body byte and the
    exact body length: neither the header nor a byte count off by one. *)
Theorem unpack_passes_exact_body (t : M) (header body beyond : list byte) :
  length header = 4%nat ->
  0 < size body <= INT_MAX ->
  unpack (holding t) (header ++ body)
  = Ret (ParseFromArray (Clear t) body (size body)) /\
  unpack_raw (holding t) (header ++ body ++ beyond) (HEADER_SIZE + size body)
  = Ret (ParseFromArray (Clear t) (body ++ beyond) (size body)).
Proof.
  intros Hh Hb. split; [by apply unpack_frame |].
  unfold INT_MAX in Hb. unfold unpack_raw, holding; cbn [m_msg].
  replace (HEADER_SIZE + size body - HEADER_SIZE) with (size body) by lia.
  rewrite to_unsigned_small by lia.
  rewrite (proj2 (Z.ltb_lt 0 (size body))) by lia.
  rewrite to_int_small by (unfold is_int, INT_MIN, INT_MAX; lia).
  change (Z.to_nat HEADER_SIZE) with 4%nat.
  by rewrite <- Hh, drop_app_length.
Qed.

End UnpackMore.

(** ** Unpacking a fixed array by its capacity *)

Section Capacity.

Context {M : Type} `{MessageType M}.


End Capacity.

(** ** The hex dump *)

Module HexFacts.

Import Stdlib.Strings.Ascii.
Import Hex.

Lemma append_nil_r (s : string) : String.append s String.EmptyString = s.
Proof. induction s as [| a s IH]; simpl; [done | by rewrite IH]. Qed.

Lemma append_assoc (s1 s2 s3 : string) :
  String.append (String.append s1 s2) s3 = String.append s1 (String.append s2 s3).
Proof. induction s1 as [| a s1 IH]; simpl; [done | by rewrite IH]. Qed.

Lemma length_append (s1 s2 : string) :
  String.length (String.append s1 s2) = (String.length s1 + String.length s2)%nat.
Proof. induction s1 as [| a s1 IH]; simpl; [done | by rewrite IH]. Qed.

(** Every element gives two digits and a blank. *)
Lemma chunk_shape (b : byte) :
  chunk b
  = String.String (hex_digit (of_uint8 b / 16))
      (String.String (hex_digit (of_uint8 b mod 16))
         (String.String " "%char String.EmptyString)).
Proof. destruct b; reflexivity. Qed.

Lemma hex_digit_inj (d d' : Z) :
  0 <= d < 16 -> 0 <= d' < 16 -> hex_digit d = hex_digit d' -> d = d'.
Proof.
  intros Hd Hd' Heq.
  assert (Hc : d = 0 \/ d = 1 \/ d = 2 \/ d = 3 \/ d = 4 \/ d = 5 \/ d = 6
               \/ d = 7 \/ d = 8 \/ d = 9 \/ d = 10 \/ d = 11 \/ d = 12
               \/ d = 13 \/ d = 14 \/ d = 15) by lia.
  assert (Hc' : d' = 0 \/ d' = 1 \/ d' = 2 \/ d' = 3 \/ d' = 4 \/ d' = 5
                \/ d' = 6 \/ d' = 7 \/ d' = 8 \/ d' = 9 \/ d' = 10 \/ d' = 11
                \/ d' = 12 \/ d' = 13 \/ d' = 14 \/ d' = 15) by lia.
  clear Hd Hd'.
  repeat destruct Hc as [-> | Hc]; try subst d;
    repeat destruct Hc' as [-> | Hc']; try subst d';
    first [reflexivity | discriminate Heq].
Qed.

Lemma chunk_inj (b b' : byte) : chunk b = chunk b' -> b = b'.
Proof.
  rewrite !chunk_shape. intros [= Hhi Hlo].
  pose proof (of_uint8_range b). pose proof (of_uint8_range b').
  apply hex_digit_inj in Hhi; [| Z.div_mod_to_equations; lia ..].
  apply hex_digit_inj in Hlo; [| Z.div_mod_to_equations; lia ..].
  rewrite <- (to_of_uint8 b), <- (to_of_uint8 b'). f_equal.
  Z.div_mod_to_equations. lia.
Qed.

Lemma show_hex_loop_acc (c : list byte) (hex : string) :
  show_hex_loop c hex = String.append hex (show_hex c).
Proof.
  unfold show_hex. revert hex. induction c as [| b c IH]; intros hex; simpl.
  - by rewrite append_nil_r.
  - rewrite (IH (String.append hex (chunk b))), (IH (chunk b)).
    apply append_assoc.
Qed.

Lemma show_hex_cons (b : byte) (c : list byte) :
  show_hex (b :: c) = String.append (chunk b) (show_hex c).
Proof. unfold show_hex at 1. simpl. apply show_hex_loop_acc. Qed.

Lemma show_hex_raw_loop_spec (before c beyond : list byte) (hex : string) :
  show_hex_raw_loop (before ++ c ++ beyond) (length before) (length c) hex
  = Ret (show_hex_loop c hex).
Proof.
  revert before hex. induction c as [| b c IH]; intros before hex; simpl.
  - done.
  - unfold load. rewrite list_lookup_middle by done. cbn [mbind outcome_bind].
    specialize (IH (before ++ [b]) (String.append hex (chunk b))).
    rewrite <- app_assoc, length_app in IH. simpl in IH.
    by rewrite Nat.add_1_r in IH.
Qed.

(** X14.  The dump has exactly three characters for each byte: no element
    ever prints more than two digits and a blank, so the 16-byte scratch
    array of [sprintf] is never overrun. *)
Theorem show_hex_length (c : list byte) :
  String.length (show_hex c) = (3 * length c)%nat.
Proof.
  induction c as [| b c IH]; [done |].
  rewrite show_hex_cons, length_append, IH, chunk_shape. simpl. lia.
Qed.

(** X15.  The dump of a concatenation is the dumps one after the other. *)
Theorem show_hex_app (c1 c2 : list byte) :
  show_hex (c1 ++ c2) = String.append (show_hex c1) (show_hex c2).
Proof.
  induction c1 as [| b c1 IH]; [done |].
  simpl app. by rewrite !show_hex_cons, IH, append_assoc.
Qed.

(** X16.  The pointer form of [show_hex], given the true length of the
    bytes, returns the text of the container form, whatever memory lies
    beyond them. *)
Theorem show_hex_forms_agree (c beyond : list byte) :
  show_hex_raw (c ++ beyond) (size c) = Ret (show_hex c).
Proof.
  unfold show_hex_raw, show_hex, size. rewrite Nat2Z.id.
  apply (show_hex_raw_loop_spec [] c beyond).
Qed.

(** X17.  The dump loses nothing: two byte sequences with the same dump are
    the same sequence. *)
Theorem show_hex_inj (c1 c2 : list byte) :
  show_hex c1 = show_hex c2 -> c1 = c2.
Proof.
  revert c2. induction c1 as [| b1 c1 IH]; intros [| b2 c2].
  - done.
  - rewrite show_hex_cons, chunk_shape. discriminate.
  - rewrite show_hex_cons, chunk_shape. discriminate.
  - rewrite !show_hex_cons. intros Heq.
    assert (Hsplit : chunk b1 = chunk b2 /\ show_hex c1 = show_hex c2).
    { rewrite !chunk_shape in Heq |- *. simpl in Heq.
      injection Heq as Hhi Hlo Hrest. by rewrite Hhi, Hlo. }
    destruct Hsplit as [Hb Hc]. f_equal; [by apply chunk_inj | by apply IH].
Qed.

End HexFacts.

(** ** More runs at the sample message *)

Module HexSample.

Import Stdlib.Strings.String.

Example show_hex_sample :
  Hex.show_hex [x00; x0a; xab; xff] = "00 0A AB FF "%string.
Proof. reflexivity. Qed.

End HexSample.


Lemma encode_then_decode_header_witness :
  exists buf' : data_buffer,
    encode_header [xaa; xaa; xaa; xaa; x07] 258 = Ret buf' /\
    decode_header buf' = Ret 258 /\
    length buf' = 5%nat /\
    drop (Z.to_nat HEADER_SIZE) buf' = [x07].
Proof.
  apply (encode_then_decode_header [xaa; xaa; xaa; xaa; x07] 258).
  - vm_compute. discriminate.
  - split; [lia | reflexivity].
Defined.

Lemma decode_then_encode_header_witness :
  encode_header [x00; x00; x01; x00; x07] 256 = Ret [x00; x00; x01; x00; x07].
Proof.
  apply decode_then_encode_header.
  - vm_compute. discriminate.
  - reflexivity.
Defined.

Lemma pack_returns_serializer_result_witness :
  exists buf : data_buffer,
    pack (holding m3) [xff] = Ret (true, buf) /\
    size buf = HEADER_SIZE + ByteSize m3 /\
    decode_header buf = Ret (ByteSize m3).
Proof.
  apply (pack_returns_serializer_result m3 [xff] m3 true).
  - split; vm_compute; discriminate.
  - reflexivity.
  - reflexivity.
  - vm_compute. discriminate.
Defined.

Lemma empty_body_frame_witness :
  pack (holding (M := Samples.t) []) [xff] = Ret (true, [x00; x00; x00; x00]) /\
  unpack (holding stale) [xde; xad; xbe; xef] = Ret (true, Clear stale) /\
  unpack_raw (holding stale) ([xde; xad; xbe; xef] ++ [x01]) HEADER_SIZE
  = Ret (true, Clear stale).
Proof.
  apply (empty_body_frame (M := Samples.t) [] stale); reflexivity.
Defined.

Lemma pack_discards_old_contents_witness :
  pack (holding m3) [] = pack (holding m3) (replicate 9 xff).
Proof.
  apply (pack_discards_old_contents m3 _ _ m3 true).
  - split; vm_compute; discriminate.
  - reflexivity.
  - reflexivity.
Defined.

Lemma pack_raw_frame_then_padding_witness :
  exists (ok' : bool) (frame : data_buffer),
    pack (holding m3) [xff] = Ret (ok', frame) /\
    pack_raw (holding m3) (replicate 12 xaa) 10
    = Ret (ok', frame ++ replicate (Z.to_nat (10 - HEADER_SIZE - ByteSize m3)) x00
                  ++ drop (Z.to_nat 10) (replicate 12 xaa)).
Proof.
  apply (pack_raw_frame_then_padding m3 [xff] (replicate 12 xaa) m3 10 true).
  - split; vm_compute; discriminate.
  - split; vm_compute; discriminate.
  - split; vm_compute; [reflexivity | discriminate].
  - reflexivity.
  - reflexivity.
Defined.


Lemma pack_raw_header_exact_witness :
  decode_header_raw [x00; x00; x00; x03; x01; x02; x03; x00; x00; x00; xaa; xaa] 10
  = Ret (ByteSize m3).
Proof.
  apply (pack_raw_header_exact m3 (replicate 12 xaa) _ 10).
  - vm_compute. discriminate.
  - split; vm_compute; discriminate.
  - reflexivity.
Defined.


Lemma unpack_forms_agree_witness :
  unpack_raw (holding stale) [x00; x00] (size [x00; x00])
  = unpack (holding stale) [x00; x00] /\
  unpack_raw (holding stale) [x00; x00; x00; x01; x05] (size [x00; x00; x00; x01; x05])
  = unpack (holding stale) [x00; x00; x00; x01; x05].
Proof.
  split; apply unpack_forms_agree; reflexivity.
Defined.

Lemma unpack_passes_exact_body_witness :
  unpack (holding stale) ([x00; x00; x00; x02] ++ [x01; x02])
  = Ret (ParseFromArray (Clear stale) [x01; x02] (size [x01; x02])) /\
  unpack_raw (holding stale) ([x00; x00; x00; x02] ++ [x01; x02] ++ [xee])
    (HEADER_SIZE + size [x01; x02])
  = Ret (ParseFromArray (Clear stale) ([x01; x02] ++ [xee]) (size [x01; x02])).
Proof.
  apply unpack_passes_exact_body.
  - reflexivity.
  - split; vm_compute; [reflexivity | discriminate].
Defined.

Lemma show_hex_inj_witness : [xab; x01] = [xab; x01].
Proof.
  apply HexFacts.show_hex_inj. reflexivity.
Defined.


(** At the sample message the padding parses as three more fields: unpacking
    by the capacity does not restore the message. *)
Example unpack_raw_by_capacity_sample :
  unpack_raw (holding stale)
    [x00; x00; x00; x03; x01; x02; x03; x00; x00; x00; xaa; xaa] 10
  = Ret (true, [x01; x02; x03; x00; x00; x00]).
Proof. reflexivity. Qed.

Lemma pack_raw_size_overflow_witness :
  16 <= HEADER_SIZE + ByteSize Filler.huge /\
  pack_raw (holding Filler.huge) (replicate 16 xaa) 16 = Fault.
Proof.
  apply (pack_raw_size_overflow Filler.huge (replicate 16 xaa) 16).
  - split; vm_compute; [reflexivity | discriminate].
  - split; vm_compute; discriminate.
Defined.

Lemma decode_header_never_wraps_witness :
  exists value : Z,
    decode_header [xff; xff; xff; xff; x07] = Ret value /\
    decode_loop_unbounded [xff; xff; xff; xff; x07] 0 (Z.to_nat HEADER_SIZE) 0
    = Ret value.
Proof.
  destruct (decode_header_never_wraps [xff; xff; xff; xff; x07])
    as (value & Hdec & _ & Hloop).
  exists value. split; [exact Hdec |].
  apply Hloop. vm_compute. discriminate.
Defined.
